(** * TemporalBuffer: a bounded buffer of states with an identifier index

    A shallow embedding of [temporal/main.py] (class [TemporalBuffer]) and
    of the two containers it is built from: [collections.deque] with a
    [maxlen], and [temporal.util.LimitedDict].

    Python values of type [dict] (the "states") are handled by reference
    only: the buffer never looks inside them.  They are modelled by an
    arbitrary type [state] of object references, so that Rocq's equality on
    [state] is Python's [is].

    Methods of the class are computations in a state-and-exception monad
    over the object's fields: a call receives [self], returns a value or
    raises, and leaves [self] (possibly modified) behind, also when it
    raises. *)

From Stdlib Require Import ZArith Lia.
From stdpp Require Import base tactics option list strings.

Open Scope Z_scope.

(** ** Python outcomes *)

(** The built-in exceptions the code can raise. *)
Inductive exn :=
| IndexError
| TypeError
| NotImplementedError
| KeyError
| ValueError
| ZeroDivisionError
| AttributeError.

Inductive outcome (A : Type) :=
| Ok (a : A)
| Raise (e : exn).
Arguments Ok {A} a.
Arguments Raise {A} e.

(** [a % b] on Python ints: the result has the sign of [b], as [Z.modulo]
    has; a zero divisor raises. *)
Definition py_mod (a b : Z) : outcome Z :=
  if b =? 0 then Raise ZeroDivisionError else Ok (a mod b).

(** [l[k:]] on a Python list: a negative bound counts from the end, and
    bounds are clipped to the list. *)
Definition slice_from {A} (k : Z) (l : list A) : list A :=
  let n := Z.of_nat (length l) in
  let k' := if k <? 0 then Z.max (k + n) 0 else Z.min k n in
  drop (Z.to_nat k') l.

(** What may be passed as a subscript.  [bool] is a subclass of [int] in
    Python, so [isinstance(True, int)] holds.  [KOther] stands for an
    object of any other type (float, None, tuple, ...), named by its
    type. *)
Inductive key :=
| KInt (i : Z)
| KBool (b : bool)
| KSlice (start stop step : option Z)
| KStr (s : string)
| KOther (type_name : string).

(** [isinstance(index, int)], with the integer value. *)
Definition as_int (k : key) : option Z :=
  match k with
  | KInt i => Some i
  | KBool b => Some (if b then 1 else 0)
  | _ => None
  end.

Section Temporal.

(** References to state objects. *)
Context {state : Type}.

(** ** [collections.deque] with a [maxlen] *)

(** [items] runs from the left (oldest) end to the right (newest) end. *)
Record deque := Deque { items : list state; maxlen : Z }.

(** [deque(maxlen=n)] for an [int] [n], as [temporal_depth] is declared. *)
Definition deque_new (n : Z) : outcome deque :=
  if n <? 0 then Raise ValueError else Ok (Deque [] n).

Definition deque_len (d : deque) : Z := Z.of_nat (length (items d)).

(** [d.append(x)]: add on the right, and when that exceeds [maxlen]
    discard one item from the left. *)
Definition deque_append (x : state) (d : deque) : deque :=
  let l := items d ++ [x] in
  Deque (if maxlen d <? Z.of_nat (length l) then drop 1 l else l) (maxlen d).

(** [d[i]] for an int: a negative index counts from the right end. *)
Definition deque_index (i : Z) (d : deque) : outcome state :=
  let n := deque_len d in
  let j := if i <? 0 then i + n else i in
  if (j <? 0) || (n <=? j) then Raise IndexError
  else match items d !! Z.to_nat j with
       | Some x => Ok x
       | None => Raise IndexError
       end.

(** [d[k]] for any subscript: a deque accepts integers only. *)
Definition deque_getitem (k : key) (d : deque) : outcome state :=
  match as_int k with
  | Some i => deque_index i d
  | None => Raise TypeError
  end.

(** ** [LimitedDict] *)

(** Modelled from the spec: [temporal.util.LimitedDict], the bounded key
    index, whose source is not part of the files at hand.  It maps
    identifiers to states under a capacity [limit] and tracks insertion
    order; [entries] lists the pairs oldest-inserted first. *)
Record LimitedDict := LDict { limit : Z; entries : list (string * state) }.

(** Modelled from the spec: the constructor, [LimitedDict(limit)]. *)
Definition ld_new (n : Z) : LimitedDict := LDict n [].

(** Modelled from the spec: the size, [len(d)]. *)
Definition ld_size (d : LimitedDict) : Z := Z.of_nat (length (entries d)).

(** The value stored under [k], the same pairs with the value under [k]
    replaced, and the same pairs without the one under [k]. *)
Fixpoint assoc (k : string) (l : list (string * state)) : option state :=
  match l with
  | [] => None
  | (k', v) :: l' => if String.eqb k k' then Some v else assoc k l'
  end.

Fixpoint assoc_set (k : string) (v : state) (l : list (string * state))
  : list (string * state) :=
  match l with
  | [] => []
  | (k', v') :: l' =>
      if String.eqb k k' then (k', v) :: l' else (k', v') :: assoc_set k v l'
  end.

Fixpoint assoc_del (k : string) (l : list (string * state))
  : list (string * state) :=
  match l with
  | [] => []
  | (k', v') :: l' =>
      if String.eqb k k' then l' else (k', v') :: assoc_del k l'
  end.

(** Modelled from the spec: [contains(key)], the membership test. *)
Definition ld_contains (k : string) (d : LimitedDict) : bool :=
  bool_decide (is_Some (assoc k (entries d))).

(** Modelled from the spec: [set(key, value)] inserts or overwrites.  An
    existing key keeps its place in the insertion order; a new key, when
    the size equals the capacity, first evicts the oldest-inserted key.
    It always succeeds. *)
Definition ld_set (k : string) (v : state) (d : LimitedDict) : LimitedDict :=
  if ld_contains k d then LDict (limit d) (assoc_set k v (entries d))
  else
    let kept := if ld_size d =? limit d then drop 1 (entries d) else entries d in
    LDict (limit d) (kept ++ [(k, v)]).

(** Modelled from the spec: [get(key, default)] returns the stored value,
    or [default] if the key is absent; it never raises.  The result is a
    state or Python's [None], written [None] here too. *)
Definition ld_get (k : string) (default : option state) (d : LimitedDict)
  : option state :=
  match assoc k (entries d) with
  | Some v => Some v
  | None => default
  end.

(** Modelled from the spec: [delete(key)] removes the key, and fails with
    KeyNotFound when it is absent. *)
Definition ld_delete (k : string) (d : LimitedDict) : outcome LimitedDict :=
  if ld_contains k d then Ok (LDict (limit d) (assoc_del k (entries d)))
  else Raise KeyError.

(** Modelled from the spec: [keys()], in insertion order. *)
Definition ld_keys (d : LimitedDict) : list string := (entries d).*1.

(** ** The object and its methods *)

Record TemporalBuffer := Self {
  buffer : deque;
  id_index : LimitedDict;
  current_index : Z
}.

Definition set_buffer (f : deque -> deque) (s : TemporalBuffer) :=
  Self (f (buffer s)) (id_index s) (current_index s).
Definition set_id_index (f : LimitedDict -> LimitedDict) (s : TemporalBuffer) :=
  Self (buffer s) (f (id_index s)) (current_index s).
Definition set_current_index (i : Z) (s : TemporalBuffer) :=
  Self (buffer s) (id_index s) i.

(** A method body: from [self] to what it returns or raises, and [self]
    afterwards. *)
Definition M (A : Type) : Type := TemporalBuffer -> outcome A * TemporalBuffer.

#[global] Instance M_ret : MRet M := fun A a s => (Ok a, s).
#[global] Instance M_bind : MBind M := fun A B f m s =>
  match m s with
  | (Ok a, s') => f a s'
  | (Raise e, s') => (Raise e, s')
  end.

Definition raise {A} (e : exn) : M A := fun s => (Raise e, s).
Definition lift {A} (o : outcome A) : M A := fun s => (o, s).
Definition self : M TemporalBuffer := fun s => (Ok s, s).
Definition modify (f : TemporalBuffer -> TemporalBuffer) : M unit :=
  fun s => (Ok tt, f s).

(** [__init__(self, temporal_depth)] *)
Definition init (temporal_depth : Z) : outcome TemporalBuffer :=
  match deque_new temporal_depth with
  | Ok d => Ok (Self d (ld_new temporal_depth) (-1))
  | Raise e => Raise e
  end.

(** [add(self, id, state)] *)
Definition add (id : string) (st : state) : M unit :=
  modify (set_id_index (ld_set id st));;
  s ← self;
  (if deque_len (buffer s) =? maxlen (buffer s) then
     i ← lift (py_mod (current_index s + 1) (maxlen (buffer s)));
     modify (set_current_index i)
   else
     modify (set_current_index (current_index s + 1)));;
  modify (set_buffer (deque_append st)).

(** The attribute [temporal_id] of a state object, when it has one. *)
Context (temporal_id : state -> option string).

(** [update(self, object_state)] *)
Definition update (object_state : state) : M unit :=
  match temporal_id object_state with
  | Some id => add id object_state
  | None => raise AttributeError
  end.

(** [get_last_n_states(self, n)]: [list(self.buffer)[-n:]] *)
Definition get_last_n_states (n : Z) : M (list state) :=
  s ← self;
  mret (slice_from (- n) (items (buffer s))).

(** [move_forward(self)] *)
Definition move_forward : M state := raise NotImplementedError.

(** [move_backward(self)] *)
Definition move_backward : M state := raise NotImplementedError.

(** [_get_by_temporal_id(self, temporal_id)]; [None] is Python's [None]. *)
Definition _get_by_temporal_id (id : string) : M (option state) :=
  s ← self;
  mret (ld_get id None (id_index s)).

(** [__len__(self)] *)
Definition __len__ : M Z :=
  s ← self;
  mret (deque_len (buffer s)).

(** [__call__(self, index=0)] *)
Definition __call__ (index : key) : M state :=
  s ← self;
  if deque_len (buffer s) =? 0 then raise IndexError
  else lift (deque_getitem index (buffer s)).

(** [__contains__(self, key)] *)
Definition __contains__ (k : string) : M bool :=
  s ← self;
  mret (ld_contains k (id_index s)).

(** [__setitem__(self, key, value)] *)
Definition __setitem__ (k : string) (value : state) : M unit :=
  modify (set_id_index (ld_set k value)).

(** [__delitem__(self, key)] *)
Definition __delitem__ (k : string) : M unit :=
  s ← self;
  d ← lift (ld_delete k (id_index s));
  modify (set_id_index (fun _ => d)).

(** [__iter__(self)]: the states the iterator yields, in order. *)
Definition __iter__ : M (list state) :=
  s ← self;
  mret (items (buffer s)).

(** [__getitem__(self, index)]; the result is a state or [None]. *)
Definition __getitem__ (index : key) : M (option state) :=
  match as_int index with
  | Some index =>
      s ← self;
      let index := if index <? 0 then Z.abs index else index in
      if (index <? 0) || (deque_len (buffer s) <=? index)
      then raise IndexError
      else
        x ← lift (deque_index (-1 - index) (buffer s));
        mret (Some x)
  | None =>
      match index with
      | KSlice _ _ _ => raise NotImplementedError
      | KStr id => _get_by_temporal_id id
      | _ => raise TypeError
      end
  end.

(** [get_state_at_index(self, index)]: [self[index]] *)
Definition get_state_at_index (index : key) : M (option state) :=
  __getitem__ index.

(** The property [current]: [self.buffer[-1]] *)
Definition current : M state :=
  s ← self;
  lift (deque_index (-1) (buffer s)).

(** ** Sequences of calls *)

(** [m1; m2; ...] on the same object; the first call that raises ends the
    sequence. *)
Fixpoint call_all (ms : list (M unit)) : M unit :=
  match ms with
  | [] => mret tt
  | m :: ms' => m;; call_all ms'
  end.

(** The two ways a state enters the buffer. *)
Inductive mutator :=
| Add (id : string) (st : state)
| Update (object_state : state).

Definition mutate (m : mutator) : M unit :=
  match m with
  | Add id st => add id st
  | Update o => update o
  end.

Definition mutated_state (m : mutator) : state :=
  match m with
  | Add _ st => st
  | Update o => o
  end.

(** An [update] needs an object that has the attribute. *)
Definition has_id (m : mutator) : Prop :=
  match m with
  | Add _ _ => True
  | Update o => is_Some (temporal_id o)
  end.

(** ** Vocabulary of the statements *)

(** The last [n] elements of a list, in the list's order. *)
Definition lastn {A} (n : nat) (l : list A) : list A :=
  drop (length l - n) l.

(** The element [d] steps behind the last one. *)
Definition behind {A} (d : nat) (l : list A) : option A :=
  if decide (d < length l)%nat then l !! (length l - 1 - d)%nat else None.

(** What a deque built by [deque(maxlen=n)] and [append] satisfies. *)
Definition deque_ok (d : deque) : Prop :=
  0 <= maxlen d /\ deque_len d <= maxlen d.

(** The deque and the cursor of a buffer of depth [N] to which the states
    [sts] were added, in this order, since its construction. *)
Definition seq_inv (N : Z) (sts : list state) (b : TemporalBuffer) : Prop :=
  maxlen (buffer b) = N /\
  items (buffer b) = lastn (Z.to_nat N) sts /\
  current_index b =
    match sts with
    | [] => -1
    | _ => (Z.of_nat (length sts) - 1) mod N
    end.

(** The key index of depth [N] after the pairs [calls] were set, in this
    order, each under a key not set before. *)
Definition idx_inv (N : Z) (calls : list (string * state)) (d : LimitedDict)
  : Prop :=
  limit d = N /\ entries d = lastn (Z.to_nat N) calls.

End Temporal.

(** ** The fixtures of the test suite, with states named by numbers *)

(** [TemporalObject(temporal_depth=3)] after
    [add("id1", s10)], [add("id2", s20)], [add("id3", s30)] and
    [add("id4", s40)]. *)
Definition filled_temporal_object : @TemporalBuffer nat :=
  Self (Deque [20; 30; 40]%nat 3)
       (LDict 3 [("id2", 20); ("id3", 30); ("id4", 40)]%nat)
       0.

(** [TemporalObject(temporal_depth=3)], and the same after
    [add("id1", s10)]. *)
Definition temporal_object : @TemporalBuffer nat :=
  Self (Deque [] 3) (LDict 3 []) (-1).

Definition single_temporal_object : @TemporalBuffer nat :=
  Self (Deque [10%nat] 3) (LDict 3 [("id1", 10%nat)]) 0.

(** The four calls that fill it. *)
Definition filled_calls : list (string * nat) :=
  [("id1", 10); ("id2", 20); ("id3", 30); ("id4", 40)]%nat.

Section Properties.

Context {state : Type} (temporal_id : state -> option string).

Local Abbreviation deque := (@deque state).
Local Abbreviation LimitedDict := (@LimitedDict state).
Local Abbreviation TemporalBuffer := (@TemporalBuffer state).
Local Abbreviation mutator := (@mutator state).
Local Abbreviation mutate := (mutate temporal_id).
Local Abbreviation has_id := (has_id temporal_id).

(** ** Reading the deque *)

Ltac unfold_method :=
  unfold mbind, M_bind, mret, M_ret, self, raise, lift, modify; simpl.

(** Case analysis on the integer comparisons of the goal. *)
Ltac zcases :=
  repeat match goal with
    | |- context [?a <? ?b] => destruct (Z.ltb_spec a b)
    | |- context [?a <=? ?b] => destruct (Z.leb_spec a b)
    | |- context [?a =? ?b] => destruct (Z.eqb_spec a b)
    end; simpl; try done; try lia.

Lemma behind_lt {A} (k : nat) (l : list A) :
  (k < length l)%nat -> exists x, behind k l = Some x.
Proof.
  intros Hk. unfold behind. rewrite decide_True by done.
  apply lookup_lt_is_Some. lia.
Qed.

Lemma behind_Some {A} (k : nat) (l : list A) (x : A) :
  behind k l = Some x ->
  (k < length l)%nat /\ l !! (length l - 1 - k)%nat = Some x.
Proof. unfold behind. case_decide; [done | discriminate]. Qed.

Lemma behind_0_last {A} (l : list A) : behind 0 l = last l.
Proof.
  unfold behind. rewrite last_lookup. case_decide as Hl.
  - f_equal. lia.
  - destruct l; simpl in *; [done | lia].
Qed.

Lemma behind_snoc {A} (l : list A) (x : A) : behind 0 (l ++ [x]) = Some x.
Proof. rewrite behind_0_last. apply last_snoc. Qed.

Lemma deque_index_lookup (d : deque) (k : nat) (x : state) :
  items d !! k = Some x -> deque_index (Z.of_nat k) d = Ok x.
Proof.
  intros Hx. pose proof (lookup_lt_Some _ _ _ Hx) as Hlt.
  unfold deque_index, deque_len. zcases.
  by rewrite Nat2Z.id, Hx.
Qed.

Lemma deque_index_behind (d : deque) (k : nat) (x : state) :
  behind k (items d) = Some x -> deque_index (-1 - Z.of_nat k) d = Ok x.
Proof.
  intros [Hk Hx]%behind_Some.
  unfold deque_index, deque_len. zcases.
  replace (Z.to_nat (-1 - Z.of_nat k + Z.of_nat (length (items d))))
    with (length (items d) - 1 - k)%nat by lia.
  by rewrite Hx.
Qed.

Lemma deque_index_out (d : deque) (i : Z) :
  i < - deque_len d \/ deque_len d <= i -> deque_index i d = Raise IndexError.
Proof.
  intros Hi. unfold deque_index. zcases.
Qed.

(** The integer branch of [__getitem__], by the distance [|i|]. *)
Lemma getitem_int_in (b : TemporalBuffer) (i : Z) (x : state) :
  behind (Z.abs_nat i) (items (buffer b)) = Some x ->
  __getitem__ (KInt i) b = (Ok (Some x), b).
Proof.
  intros Hx. pose proof (behind_Some _ _ _ Hx) as [Hlt _].
  unfold __getitem__. simpl. unfold_method.
  assert ((if i <? 0 then Z.abs i else i) = Z.of_nat (Z.abs_nat i)) as ->.
  { zcases. }
  unfold deque_len. zcases.
  by rewrite (deque_index_behind _ _ _ Hx).
Qed.

Lemma getitem_int_out (b : TemporalBuffer) (i : Z) :
  deque_len (buffer b) <= Z.abs i ->
  __getitem__ (KInt i) b = (Raise IndexError, b).
Proof.
  intros Hi. unfold __getitem__. simpl. unfold_method.
  assert ((if i <? 0 then Z.abs i else i) = Z.abs i) as ->.
  { zcases. }
  zcases.
Qed.

(** ** What [add] does *)

Lemma add_ok (b : TemporalBuffer) (id : string) (st : state) :
  1 <= maxlen (buffer b) ->
  add id st b =
    (Ok tt,
     Self (deque_append st (buffer b)) (ld_set id st (id_index b))
       (if deque_len (buffer b) =? maxlen (buffer b)
        then (current_index b + 1) mod maxlen (buffer b)
        else current_index b + 1)).
Proof.
  intros HN. unfold add. unfold_method. unfold py_mod.
  destruct (Z.eqb_spec (deque_len (buffer b)) (maxlen (buffer b))); [| done].
  destruct (Z.eqb_spec (maxlen (buffer b)) 0); [lia | done].
Qed.

Lemma add_success_maxlen (b b' : TemporalBuffer) (id : string) (st : state) :
  deque_ok (buffer b) -> add id st b = (Ok tt, b') -> 1 <= maxlen (buffer b).
Proof.
  intros [H0 Hle]. unfold add. unfold_method. unfold py_mod, deque_len in *.
  destruct (Z.eqb_spec (Z.of_nat (length (items (buffer b)))) (maxlen (buffer b)));
    [| lia].
  destruct (Z.eqb_spec (maxlen (buffer b)) 0); [discriminate | lia].
Qed.

Lemma deque_append_items (d : deque) (x : state) :
  deque_ok d -> 1 <= maxlen d ->
  items (deque_append x d) =
    (if deque_len d =? maxlen d then drop 1 (items d) else items d) ++ [x].
Proof.
  intros [_ Hle] HN. unfold deque_append, deque_len in *. simpl.
  rewrite length_app. simpl.
  destruct (Z.eqb_spec (Z.of_nat (length (items d))) (maxlen d)).
  - zcases. destruct (items d); simpl in *; [lia | done].
  - zcases.
Qed.

Lemma deque_append_ok (d : deque) (x : state) :
  deque_ok d -> 1 <= maxlen d -> deque_ok (deque_append x d).
Proof.
  intros Hok HN. pose proof (deque_append_items d x Hok HN) as Hit.
  destruct Hok as [H0 Hle]. split; [done |].
  unfold deque_len in *. rewrite Hit, length_app. simpl.
  replace (maxlen (deque_append x d)) with (maxlen d) by done.
  destruct (Z.eqb_spec (Z.of_nat (length (items d))) (maxlen d));
    rewrite ?length_drop; lia.
Qed.

Lemma add_newest (b b' : TemporalBuffer) (id : string) (st : state) :
  deque_ok (buffer b) -> add id st b = (Ok tt, b') ->
  behind 0 (items (buffer b')) = Some st.
Proof.
  intros Hok Hadd. pose proof (add_success_maxlen _ _ _ _ Hok Hadd) as HN.
  rewrite add_ok in Hadd by done. injection Hadd as <-. cbn [buffer].
  rewrite deque_append_items by done. apply behind_snoc.
Qed.

(** ** Indexed reads *)

(** C2: [buffer[0]] is the most recently added state, and for
    [1 <= d < len(buffer)] both [buffer[d]] and [buffer[-d]] return the
    same state, the one [d] steps behind the most recent. *)
Theorem getitem_abs_collapse (b : TemporalBuffer) :
  deque_ok (buffer b) ->
  (forall id st b', add id st b = (Ok tt, b') ->
     __getitem__ (KInt 0) b' = (Ok (Some st), b')) /\
  (forall x, last (items (buffer b)) = Some x ->
     __getitem__ (KInt 0) b = (Ok (Some x), b)) /\
  (forall d, 1 <= d < deque_len (buffer b) ->
     exists x, behind (Z.to_nat d) (items (buffer b)) = Some x /\
       __getitem__ (KInt d) b = (Ok (Some x), b) /\
       __getitem__ (KInt (- d)) b = (Ok (Some x), b)).
Proof.
  intros Hok. split; [| split].
  - intros id st b' Hadd. apply getitem_int_in.
    apply (add_newest _ _ _ _ Hok Hadd).
  - intros x Hx. apply getitem_int_in. simpl. by rewrite behind_0_last.
  - intros d Hd. unfold deque_len in Hd.
    destruct (behind_lt (Z.to_nat d) (items (buffer b))) as [x Hx]; [lia |].
    exists x. split; [done |].
    split; apply getitem_int_in.
    + by replace (Z.abs_nat d) with (Z.to_nat d) by lia.
    + by replace (Z.abs_nat (- d)) with (Z.to_nat d) by lia.
Qed.

(** A [bool] subscript is read as the integer it is. *)
Remark getitem_bool (b : TemporalBuffer) (t : bool) :
  __getitem__ (KBool t) b = __getitem__ (KInt (if t then 1 else 0)) b.
Proof. done. Qed.

(** C3: the integer read [buffer[i]] raises [IndexError] exactly when
    [|i| >= len(buffer)], and otherwise returns a state. *)
Theorem getitem_range_check (b : TemporalBuffer) (i : Z) :
  (fst (__getitem__ (KInt i) b) = Raise IndexError <->
     deque_len (buffer b) <= Z.abs i) /\
  (Z.abs i < deque_len (buffer b) ->
     exists x, __getitem__ (KInt i) b = (Ok (Some x), b)).
Proof.
  assert (Z.abs i < deque_len (buffer b) ->
          exists x, __getitem__ (KInt i) b = (Ok (Some x), b)) as Hin.
  { intros Hi. unfold deque_len in Hi.
    destruct (behind_lt (Z.abs_nat i) (items (buffer b))) as [x Hx]; [lia |].
    exists x. by apply getitem_int_in. }
  split; [| done]. split.
  - intros Hraise.
    destruct (Z.le_gt_cases (deque_len (buffer b)) (Z.abs i)) as [| Hlt]; [done |].
    destruct (Hin Hlt) as [x Hx]. rewrite Hx in Hraise. discriminate.
  - intros Hi. by rewrite getitem_int_out.
Qed.

(** C4: a slice read raises [NotImplementedError]; a read whose key is
    neither an integer, a string nor a slice raises [TypeError]; a string
    read never raises, and returns [None] for an absent identifier. *)
Theorem getitem_dispatch (b : TemporalBuffer) :
  (forall start stop step,
     __getitem__ (KSlice start stop step) b = (Raise NotImplementedError, b)) /\
  (forall k, as_int k = None ->
     (forall start stop step, k <> KSlice start stop step) ->
     (forall id, k <> KStr id) ->
     __getitem__ k b = (Raise TypeError, b)) /\
  (forall id, exists r, __getitem__ (KStr id) b = (Ok r, b)) /\
  (forall id, ld_contains id (id_index b) = false ->
     __getitem__ (KStr id) b = (Ok None, b)).
Proof.
  split; [done |]. split; [| split].
  - intros k Hint Hslice Hstr. destruct k; try done.
    + by destruct (Hslice start stop step).
    + by destruct (Hstr s).
  - intros id. by eexists.
  - intros id Habs. unfold __getitem__, _get_by_temporal_id, ld_get. simpl.
    unfold_method. unfold ld_contains in Habs.
    apply bool_decide_eq_false in Habs.
    destruct (assoc id (entries (id_index b))) as [v |] eqn:Hv; [| done].
    destruct Habs. by eexists.
Qed.

(** C6: on a non-empty buffer [current] is the most recently added
    state; on an empty buffer it raises (the deque's [IndexError]) and
    returns nothing. *)
Theorem current_accessor (b : TemporalBuffer) :
  (items (buffer b) = [] -> current b = (Raise IndexError, b)) /\
  (forall x, last (items (buffer b)) = Some x -> current b = (Ok x, b)) /\
  (deque_ok (buffer b) ->
   forall id st b', add id st b = (Ok tt, b') -> current b' = (Ok st, b')).
Proof.
  assert (forall (c : TemporalBuffer) x,
            behind 0 (items (buffer c)) = Some x -> current c = (Ok x, c))
    as Hcur.
  { intros c x Hx. apply deque_index_behind in Hx.
    change (-1 - Z.of_nat 0) with (-1) in Hx.
    unfold current, mbind, M_bind, self, lift. by rewrite Hx. }
  split; [| split].
  - intros Hnil. unfold current, mbind, M_bind, self, lift.
    rewrite deque_index_out; [done |]. unfold deque_len. rewrite Hnil. simpl. lia.
  - intros x Hx. apply Hcur. by rewrite behind_0_last.
  - intros Hok id st b' Hadd. apply Hcur. apply (add_newest _ _ _ _ Hok Hadd).
Qed.

(** C9: [move_forward] and [move_backward] raise [NotImplementedError]
    in every state and leave the buffer, the index and [current_index]
    as they were. *)
Theorem move_stubs_raise (b : TemporalBuffer) :
  move_forward b = (Raise NotImplementedError, b) /\
  move_backward b = (Raise NotImplementedError, b).
Proof. done. Qed.

(** C10: calling the object, [buffer(i)], raises [IndexError] on an
    empty buffer and otherwise is the deque's own subscript: [buffer(0)]
    is the oldest retained state where [buffer[0]] is the newest, a
    negative argument [-d] counts from the newest end (no absolute value
    is taken), and only the deque's range check applies. *)
Theorem call_raw_indexing (b : TemporalBuffer) :
  (items (buffer b) = [] -> forall k, __call__ k b = (Raise IndexError, b)) /\
  (forall x l y, items (buffer b) = x :: l ++ [y] ->
     __call__ (KInt 0) b = (Ok x, b) /\
     __getitem__ (KInt 0) b = (Ok (Some y), b)) /\
  (forall i x, 0 <= i -> items (buffer b) !! Z.to_nat i = Some x ->
     __call__ (KInt i) b = (Ok x, b)) /\
  (forall d x, 1 <= d -> behind (Z.to_nat (d - 1)) (items (buffer b)) = Some x ->
     __call__ (KInt (- d)) b = (Ok x, b)) /\
  (forall i, items (buffer b) <> [] ->
     i < - deque_len (buffer b) \/ deque_len (buffer b) <= i ->
     __call__ (KInt i) b = (Raise IndexError, b)).
Proof.
  assert (forall i, items (buffer b) <> [] ->
            __call__ (KInt i) b = (deque_index i (buffer b), b)) as Hcall.
  { intros i Hne. unfold __call__, mbind, M_bind, self, lift, deque_len.
    destruct (items (buffer b)); [done |]. done. }
  assert (forall i x, 0 <= i -> items (buffer b) !! Z.to_nat i = Some x ->
            __call__ (KInt i) b = (Ok x, b)) as Hpos.
  { intros i x Hi Hx. rewrite Hcall by (intros Hnil; by rewrite Hnil in Hx).
    apply deque_index_lookup in Hx. rewrite Z2Nat.id in Hx by done.
    by rewrite Hx. }
  split; [| split; [| split; [| split]]].
  - intros Hnil k. unfold __call__, mbind, M_bind, self, raise, deque_len.
    by rewrite Hnil.
  - intros x l y Hit. split.
    + apply Hpos; [done |]. by rewrite Hit.
    + apply getitem_int_in. simpl. rewrite Hit.
      change (x :: l ++ [y]) with ((x :: l) ++ [y]). apply behind_snoc.
  - done.
  - intros d x Hd Hx. rewrite Hcall.
    + apply deque_index_behind in Hx.
      replace (-1 - Z.of_nat (Z.to_nat (d - 1))) with (- d) in Hx by lia.
      by rewrite Hx.
    + intros Hnil. rewrite Hnil in Hx. apply behind_Some in Hx. simpl in Hx. lia.
  - intros i Hne Hi. rewrite Hcall by done. by rewrite deque_index_out.
Qed.

(** ** Writing to the index only *)

Lemma assoc_del_length (k : string) (l : list (string * state)) :
  is_Some (assoc k l) -> S (length (assoc_del k l)) = length l.
Proof.
  induction l as [| [k' v'] l IH]; simpl.
  - by intros [? ?].
  - destruct (String.eqb k k'); [done |]. intros Hk. simpl. by rewrite IH.
Qed.

Lemma getitem_int_buffer (b b' : TemporalBuffer) (i : Z) :
  buffer b' = buffer b ->
  fst (__getitem__ (KInt i) b') = fst (__getitem__ (KInt i) b).
Proof.
  intros Hb. unfold __getitem__. simpl. unfold mbind, M_bind, self, raise, lift.
  rewrite Hb.
  destruct ((_ <? 0) || _); [done |].
  by destruct (deque_index _ _).
Qed.

(** C8: [buffer[id] = value] and, for a present key, [del buffer[id]]
    change the key index only: the deque (length, contents, order) and
    [current_index] are as before, and every positional read returns what
    it returned before, the state whose key was deleted included. *)
Theorem index_mutation_frame (b : TemporalBuffer) (id : string) (value : state) :
  (exists b', __setitem__ id value b = (Ok tt, b') /\
     buffer b' = buffer b /\ current_index b' = current_index b /\
     forall i, fst (__getitem__ (KInt i) b') = fst (__getitem__ (KInt i) b)) /\
  (ld_contains id (id_index b) = true ->
   exists b', __delitem__ id b = (Ok tt, b') /\
     buffer b' = buffer b /\ current_index b' = current_index b /\
     ld_size (id_index b') = ld_size (id_index b) - 1 /\
     forall i, fst (__getitem__ (KInt i) b') = fst (__getitem__ (KInt i) b)).
Proof.
  split.
  - eexists. split; [done |]. split; [done |]. split; [done |].
    intros i. by apply getitem_int_buffer.
  - intros Hin. unfold __delitem__, mbind, M_bind, self, lift, modify, ld_delete.
    rewrite Hin. eexists. split; [done |]. split; [done |]. split; [done |].
    split.
    + unfold ld_size. simpl. apply bool_decide_eq_true in Hin.
      apply assoc_del_length in Hin. lia.
    + intros i. by apply getitem_int_buffer.
Qed.

(** ** [get_last_n_states] *)

Lemma lastn_all {A} (n : nat) (l : list A) :
  (length l <= n)%nat -> lastn n l = l.
Proof. intros Hn. unfold lastn. by replace (length l - n)%nat with 0%nat by lia. Qed.

Lemma lastn_length {A} (n : nat) (l : list A) :
  length (lastn n l) = (length l `min` n)%nat.
Proof. unfold lastn. rewrite length_drop. lia. Qed.

Lemma lastn_snoc {A} (n : nat) (l : list A) (x : A) :
  (1 <= n)%nat ->
  lastn n (l ++ [x]) =
    (if decide (length l < n)%nat then lastn n l else drop 1 (lastn n l)) ++ [x].
Proof.
  intros Hn. unfold lastn. rewrite length_app. simpl. case_decide.
  - replace (length l + 1 - n)%nat with 0%nat by lia.
    by replace (length l - n)%nat with 0%nat by lia.
  - rewrite drop_drop. rewrite drop_app_le by lia.
    do 2 f_equal. lia.
Qed.

(** For [n >= 1] the result is the last [n] states, oldest first, and
    all of them when [n] exceeds the length. *)
Lemma get_last_n_positive (b : TemporalBuffer) (n : Z) :
  1 <= n ->
  get_last_n_states n b = (Ok (lastn (Z.to_nat n) (items (buffer b))), b).
Proof.
  intros Hn. unfold get_last_n_states. unfold_method.
  unfold slice_from, lastn. zcases. do 3 f_equal. lia.
Qed.

(** [list(self.buffer)[-0:]] is the whole list. *)
Lemma get_last_n_zero (b : TemporalBuffer) :
  get_last_n_states 0 b = (Ok (items (buffer b)), b).
Proof.
  unfold get_last_n_states, mbind, M_bind, self, mret, M_ret, slice_from.
  change (- 0 <? 0) with false. cbv beta iota zeta.
  by replace (Z.to_nat _) with 0%nat by lia.
Qed.

(** ** Sequences of [add] and [update] *)

Lemma init_ok (N : Z) :
  0 <= N -> @init state N = Ok (Self (Deque [] N) (ld_new N) (-1)).
Proof. intros HN. unfold init, deque_new. by zcases. Qed.

Lemma seq_inv_init (N : Z) :
  @seq_inv state N [] (Self (Deque [] N) (ld_new N) (-1)).
Proof. done. Qed.

Lemma seq_inv_deque_ok (N : Z) (sts : list state) (b : TemporalBuffer) :
  1 <= N -> seq_inv N sts b -> deque_ok (buffer b).
Proof.
  intros HN (Hmax & Hit & _). unfold deque_ok, deque_len.
  rewrite Hmax, Hit, lastn_length. lia.
Qed.

Lemma seq_inv_add (N : Z) (sts : list state) (b : TemporalBuffer)
    (id : string) (st : state) :
  1 <= N -> seq_inv N sts b ->
  exists b', add id st b = (Ok tt, b') /\
    seq_inv N (sts ++ [st]) b' /\
    id_index b' = ld_set id st (id_index b).
Proof.
  intros HN Hinv. pose proof (seq_inv_deque_ok _ _ _ HN Hinv) as Hok.
  destruct Hinv as (Hmax & Hit & Hci).
  eexists. split; [apply add_ok; lia |]. split; [| done].
  assert (deque_len (buffer b) = Z.of_nat (length sts `min` Z.to_nat N)) as Hlen.
  { unfold deque_len. by rewrite Hit, lastn_length. }
  split; [done |]. cbn [buffer current_index]. split.
  - rewrite deque_append_items by (done || lia).
    rewrite lastn_snoc by lia. rewrite Hlen, Hmax, Hit.
    case_decide; zcases.
  - rewrite Hlen, Hmax, Hci, length_app. simpl.
    destruct sts as [| x sts]; simpl length.
    + destruct (Z.eqb_spec (Z.of_nat (0 `min` Z.to_nat N)) N); [lia |].
      by rewrite Z.mod_0_l by lia.
    + cbn [app].
      destruct (Z.eqb_spec (Z.of_nat (S (length sts) `min` Z.to_nat N)) N).
      * rewrite Z.add_mod_idemp_l by lia. f_equal. lia.
      * rewrite Z.mod_small by lia. rewrite Z.mod_small by lia. lia.
Qed.

Lemma mutate_all_inv (N : Z) (ms : list mutator) :
  1 <= N -> Forall has_id ms ->
  forall (sts : list state) (b : TemporalBuffer),
    seq_inv N sts b ->
    exists b', call_all (mutate <$> ms) b = (Ok tt, b') /\
      seq_inv N (sts ++ (mutated_state <$> ms)) b'.
Proof.
  intros HN Hids. induction Hids as [| m ms Hm _ IH]; intros sts b Hinv.
  - exists b. split; [done |]. by rewrite app_nil_r.
  - assert (exists b1, mutate m b = (Ok tt, b1) /\
              seq_inv N (sts ++ [mutated_state m]) b1) as (b1 & Hrun & Hinv1).
    { destruct m as [id st | o]; simpl in *.
      - destruct (seq_inv_add N sts b id st HN Hinv) as (b1 & ? & ? & _). eauto.
      - destruct Hm as [id Hid]. unfold update. rewrite Hid.
        destruct (seq_inv_add N sts b id o HN Hinv) as (b1 & ? & ? & _). eauto. }
    destruct (IH _ _ Hinv1) as (b' & Hrest & Hinv').
    exists b'. split.
    + simpl. unfold mbind, M_bind. by rewrite Hrun.
    + by rewrite <- app_assoc in Hinv'.
Qed.

(** ** The key index under distinct keys *)

Lemma assoc_None (k : string) (l : list (string * state)) :
  k ∉ l.*1 -> assoc k l = None.
Proof.
  induction l as [| [k' v'] l IH]; [done |]. simpl.
  intros [Hne Hnot]%not_elem_of_cons.
  destruct (String.eqb_spec k k'); [done | by apply IH].
Qed.

Lemma assoc_lookup (k : string) (v : state) (l : list (string * state)) (j : nat) :
  NoDup l.*1 -> l !! j = Some (k, v) -> assoc k l = Some v.
Proof.
  revert j. induction l as [| [k' v'] l IH]; intros j Hnd Hj; [done |].
  simpl in *. apply NoDup_cons in Hnd as [Hnot Hnd].
  destruct j as [| j]; simpl in Hj.
  - injection Hj as -> ->. by rewrite String.eqb_refl.
  - destruct (String.eqb_spec k k') as [-> |]; [| by eapply IH].
    destruct Hnot. apply list_elem_of_lookup_2 in Hj.
    by apply (list_elem_of_fmap_2 fst) in Hj.
Qed.

Lemma idx_inv_set (N : Z) (calls : list (string * state)) (d : LimitedDict)
    (id : string) (st : state) :
  1 <= N -> idx_inv N calls d -> id ∉ calls.*1 ->
  idx_inv N (calls ++ [(id, st)]) (ld_set id st d).
Proof.
  intros HN [Hlim Hent] Hfresh.
  assert (ld_contains id d = false) as Hnew.
  { unfold ld_contains. apply bool_decide_eq_false. rewrite assoc_None.
    - by intros [? ?].
    - rewrite Hent. unfold lastn. rewrite fmap_drop.
      intros Hin. apply Hfresh. by apply (subseteq_drop _ _ _ Hin). }
  unfold ld_set. rewrite Hnew. split; [done |]. simpl.
  rewrite lastn_snoc by lia. unfold ld_size.
  rewrite Hlim, Hent, lastn_length. case_decide; zcases.
Qed.

Lemma add_all_inv (N : Z) (calls : list (string * state)) :
  1 <= N ->
  forall (done : list (string * state)) (b : TemporalBuffer),
    NoDup (done ++ calls).*1 ->
    seq_inv N done.*2 b -> idx_inv N done (id_index b) ->
    exists b', call_all ((fun c => add c.1 c.2) <$> calls) b = (Ok tt, b') /\
      seq_inv N (done ++ calls).*2 b' /\
      idx_inv N (done ++ calls) (id_index b').
Proof.
  intros HN. induction calls as [| [id st] calls IH]; intros done b Hnd Hseq Hidx.
  - exists b. by rewrite app_nil_r.
  - destruct (seq_inv_add N _ b id st HN Hseq) as (b1 & Hrun & Hseq1 & Hidx1).
    replace (done ++ (id, st) :: calls) with ((done ++ [(id, st)]) ++ calls)
      in * by by rewrite <- app_assoc.
    destruct (IH (done ++ [(id, st)]) b1) as (b' & Hrest & Hinv'); [done | | |].
    + by rewrite fmap_app.
    + rewrite Hidx1. apply idx_inv_set; [done | done |].
      rewrite !fmap_app in Hnd. apply NoDup_app in Hnd as [Hnd _].
      apply NoDup_app in Hnd as (_ & Hdisj & _).
      intros Hin. apply (Hdisj id Hin). simpl. apply elem_of_cons. by left.
    + exists b'. split; [| done].
      simpl. unfold mbind, M_bind. by rewrite Hrun.
Qed.

(** C7: [current_index] is [-1] after construction and [(k - 1) mod N]
    after the [k]-th of a sequence of [add] and [update] calls on a buffer
    of depth [N]; the reads ([buffer[k]], [current], [get_last_n_states],
    iteration, [len]) leave the whole object, so also [current_index], as
    it was. *)
Theorem current_index_evolution (N : Z) :
  1 <= N ->
  (exists b0 : TemporalBuffer,
     init N = Ok b0 /\ current_index b0 = -1 /\
     forall ms : list mutator, Forall has_id ms -> ms <> [] ->
       exists b, call_all (mutate <$> ms) b0 = (Ok tt, b) /\
         current_index b = (Z.of_nat (length ms) - 1) mod N) /\
  (forall b : TemporalBuffer,
     (forall k, snd (__getitem__ k b) = b) /\
     snd (current b) = b /\
     (forall n, snd (get_last_n_states n b) = b) /\
     snd (__iter__ b) = b /\
     snd (__len__ b) = b).
Proof.
  intros HN. split.
  - eexists. split; [apply init_ok; lia |]. split; [done |].
    intros ms Hids Hne.
    destruct (mutate_all_inv N ms HN Hids [] _ (seq_inv_init N))
      as (b & Hrun & _ & _ & Hci).
    exists b. split; [done |]. rewrite Hci. simpl.
    destruct ms as [| m ms]; [done |]. by rewrite length_fmap.
  - intros b. split; [| split; [| done]].
    + intros k. unfold __getitem__, _get_by_temporal_id.
      destruct k as [i | [] | | |]; simpl; try done;
        unfold mbind, M_bind, self, raise, lift, mret, M_ret;
        by repeat case_match.
    + unfold current, mbind, M_bind, self, lift. by destruct (deque_index _ _).
Qed.

Lemma lastn_min {A} (n : nat) (l : list A) :
  lastn (length l `min` n) l = lastn n l.
Proof. unfold lastn. f_equal. lia. Qed.

(** C1: after [add] calls with pairwise distinct ids on a fresh buffer of
    depth [N], the length is [min(count, N)]; the buffer holds the last
    [min(count, N)] states in insertion order; a retained id looks up the
    very state that the positional read of the same insertion returns; an
    evicted id looks up [None]. *)
Theorem add_sequence_consistent (N : Z) (calls : list (string * state)) :
  1 <= N -> NoDup calls.*1 ->
  exists b0 b : TemporalBuffer,
    init N = Ok b0 /\
    call_all ((fun c => add c.1 c.2) <$> calls) b0 = (Ok tt, b) /\
    __len__ b = (Ok (Z.of_nat (length calls `min` Z.to_nat N)), b) /\
    __iter__ b = (Ok (lastn (length calls `min` Z.to_nat N) calls.*2), b) /\
    (forall j id st, calls !! j = Some (id, st) ->
       (length calls - length calls `min` Z.to_nat N <= j)%nat ->
       __getitem__ (KStr id) b = (Ok (Some st), b) /\
       __getitem__ (KInt (Z.of_nat (length calls - 1 - j))) b = (Ok (Some st), b)) /\
    (forall j id st, calls !! j = Some (id, st) ->
       (j < length calls - length calls `min` Z.to_nat N)%nat ->
       __getitem__ (KStr id) b = (Ok None, b)).
Proof.
  intros HN Hnd.
  destruct (add_all_inv N calls HN [] (Self (Deque [] N) (ld_new N) (-1)))
    as (b & Hrun & (_ & Hit & _) & (_ & Hent)); [done | done | done |].
  simpl in Hit, Hent.
  assert (forall id, __getitem__ (KStr id) b =
            (Ok (assoc id (lastn (Z.to_nat N) calls)), b)) as Hstr.
  { intros id. unfold __getitem__, _get_by_temporal_id, ld_get. simpl.
    unfold mbind, M_bind, self, mret, M_ret. rewrite Hent.
    by destruct (assoc id _). }
  eexists _, b. split; [apply init_ok; lia |]. split; [done |].
  split; [| split; [| split]].
  - unfold __len__, mbind, M_bind, self, mret, M_ret, deque_len.
    by rewrite Hit, lastn_length, length_fmap.
  - unfold __iter__, mbind, M_bind, self, mret, M_ret.
    rewrite Hit. by rewrite <- (length_fmap snd calls), lastn_min.
  - intros j id st Hj Hret. pose proof (lookup_lt_Some _ _ _ Hj) as Hlt. split.
    + rewrite Hstr. f_equal. f_equal. unfold lastn.
      apply (assoc_lookup _ _ _ (j - (length calls - Z.to_nat N))).
      * rewrite fmap_drop. eapply sublist_NoDup; [done | apply sublist_drop].
      * rewrite lookup_drop, <- Hj. f_equal. lia.
    + apply getitem_int_in. rewrite Hit, Zabs2Nat.id. unfold behind, lastn.
      rewrite length_drop, length_fmap.
      rewrite decide_True by lia.
      rewrite lookup_drop, list_lookup_fmap.
      replace (_ + _)%nat with j by lia. by rewrite Hj.
  - intros j id st Hj Hev. rewrite Hstr. f_equal. f_equal.
    apply assoc_None. unfold lastn. rewrite fmap_drop.
    rewrite <- (take_drop (length calls - Z.to_nat N) calls.*1) in Hnd.
    apply NoDup_app in Hnd as (_ & Hdisj & _). apply Hdisj.
    rewrite <- fmap_take. apply (list_elem_of_fmap_2' fst _ (id, st)); [| done].
    apply elem_of_take. exists j. split; [done | lia].
Qed.

(** ** Further properties of the methods *)

Lemma behind_None {A} (k : nat) (l : list A) :
  (length l <= k)%nat -> behind k l = None.
Proof. intros Hk. unfold behind. by rewrite decide_False by lia. Qed.

Lemma behind_app_S {A} (d : nat) (l : list A) (x : A) :
  behind (S d) (l ++ [x]) = behind d l.
Proof.
  unfold behind. rewrite length_app. simpl. case_decide.
  - rewrite decide_True by lia. rewrite lookup_app_l by lia. f_equal. lia.
  - by rewrite decide_False by lia.
Qed.

Lemma behind_drop1 {A} (d : nat) (l : list A) :
  (S d < length l)%nat -> behind d (drop 1 l) = behind d l.
Proof.
  intros Hd. unfold behind. rewrite length_drop.
  rewrite !decide_True by lia. rewrite lookup_drop. f_equal. lia.
Qed.

(** The outcome of an integer read, by the distance [|i|]. *)
Lemma getitem_int_fst (b : TemporalBuffer) (i : Z) :
  fst (__getitem__ (KInt i) b) =
    match behind (Z.abs_nat i) (items (buffer b)) with
    | Some x => Ok (Some x)
    | None => Raise IndexError
    end.
Proof.
  destruct (behind (Z.abs_nat i) (items (buffer b))) as [x |] eqn:Hx.
  - by rewrite (getitem_int_in _ _ _ Hx).
  - rewrite getitem_int_out; [done |]. unfold deque_len.
    destruct (decide (Z.abs_nat i < length (items (buffer b)))%nat) as [Hlt |]; [| lia].
    destruct (behind_lt _ _ Hlt) as [y Hy]. congruence.
Qed.

Lemma current_behind (b : TemporalBuffer) :
  current b =
    (match behind 0 (items (buffer b)) with
     | Some x => Ok x
     | None => Raise IndexError
     end, b).
Proof.
  unfold current, mbind, M_bind, self, lift.
  destruct (behind 0 (items (buffer b))) as [x |] eqn:Hx.
  - apply deque_index_behind in Hx.
    change (-1 - Z.of_nat 0) with (-1) in Hx. by rewrite Hx.
  - rewrite deque_index_out; [done |]. unfold deque_len. left.
    destruct (items (buffer b)) as [| y l]; [simpl; lia |].
    destruct (behind_lt 0 (y :: l)) as [z Hz]; [simpl; lia | congruence].
Qed.

Lemma call_int (b : TemporalBuffer) (i : Z) :
  items (buffer b) <> [] ->
  __call__ (KInt i) b = (deque_index i (buffer b), b).
Proof.
  intros Hne. unfold __call__, mbind, M_bind, self, lift, deque_len.
  by destruct (items (buffer b)).
Qed.



(** X3: on a buffer of depth at least 1 whose length is within the depth,
    [add] succeeds; afterwards the depth is the same, the length is
    [min(len + 1, maxlen)], still within the depth, and the iteration is
    the old one, without its first state when the buffer was full,
    followed by the new state. *)
Theorem add_keeps_bound (b : TemporalBuffer) (id : string) (st : state) :
  deque_ok (buffer b) -> 1 <= maxlen (buffer b) ->
  exists b', add id st b = (Ok tt, b') /\
    deque_ok (buffer b') /\
    maxlen (buffer b') = maxlen (buffer b) /\
    __len__ b' = (Ok (Z.min (deque_len (buffer b) + 1) (maxlen (buffer b))), b') /\
    __iter__ b' =
      (Ok ((if deque_len (buffer b) =? maxlen (buffer b)
            then drop 1 (items (buffer b)) else items (buffer b)) ++ [st]), b').
Proof.
  intros Hok HN. eexists. split; [by apply add_ok |].
  pose proof (deque_append_items _ st Hok HN) as Hit.
  split; [by apply deque_append_ok |]. split; [done |].
  unfold __len__, __iter__, mbind, M_bind, self, mret, M_ret, deque_len.
  cbn [buffer]. rewrite Hit. split; [| done].
  do 2 f_equal. destruct Hok as [_ Hle]. unfold deque_len in *.
  rewrite length_app. simpl.
  destruct (Z.eqb_spec (Z.of_nat (length (items (buffer b)))) (maxlen (buffer b)));
    rewrite ?length_drop; lia.
Qed.

(** X4: a successful [add] moves every state one step back: for
    [d >= 0] with [d + 1] below the new length, [buffer[d + 1]] after the
    call is what [buffer[d]] was before it. *)
Theorem add_shifts_reads (b b' : TemporalBuffer) (id : string) (st : state)
    (d : Z) :
  deque_ok (buffer b) -> add id st b = (Ok tt, b') ->
  0 <= d -> d + 1 < deque_len (buffer b') ->
  fst (__getitem__ (KInt (d + 1)) b') = fst (__getitem__ (KInt d) b).
Proof.
  intros Hok Hadd Hd Hlt.
  pose proof (add_success_maxlen _ _ _ _ Hok Hadd) as HN.
  rewrite add_ok in Hadd by done. injection Hadd as <-.
  rewrite !getitem_int_fst. cbn [buffer] in *. unfold deque_len in Hlt.
  rewrite deque_append_items in * by done.
  replace (Z.abs_nat (d + 1)) with (S (Z.abs_nat d)) by lia.
  rewrite behind_app_S. rewrite length_app in Hlt. simpl in Hlt.
  destruct (deque_len (buffer b) =? maxlen (buffer b)); [| done].
  rewrite length_drop in Hlt. by rewrite behind_drop1 by lia.
Qed.

Lemma lastn_1_behind {A} (l : list A) :
  lastn 1 l = match behind 0 l with Some x => [x] | None => [] end.
Proof.
  destruct l as [| y l] using rev_ind; [done |].
  rewrite behind_snoc, lastn_snoc by lia.
  case_decide as Hl.
  - destruct l; simpl in Hl; [done | lia].
  - rewrite drop_ge; [done |]. rewrite lastn_length. lia.
Qed.

(** X5: calling the object and subscripting it read the iteration from
    opposite ends: for [0 <= i < len], [buffer(i)] is the [i]-th state of
    the iteration (oldest first), and it is the state that
    [buffer[len - 1 - i]] returns. *)
Theorem call_mirrors_getitem (b : TemporalBuffer) (i : Z) :
  0 <= i < deque_len (buffer b) ->
  exists l x,
    __iter__ b = (Ok l, b) /\ l !! Z.to_nat i = Some x /\
    __call__ (KInt i) b = (Ok x, b) /\
    __getitem__ (KInt (deque_len (buffer b) - 1 - i)) b = (Ok (Some x), b).
Proof.
  intros Hi. unfold deque_len in *.
  destruct (lookup_lt_is_Some_2 (items (buffer b)) (Z.to_nat i)) as [x Hx]; [lia |].
  exists (items (buffer b)), x. split; [done |]. split; [done |]. split.
  - rewrite call_int by (intros Hnil; by rewrite Hnil in Hx).
    apply deque_index_lookup in Hx. rewrite Z2Nat.id in Hx by lia.
    by rewrite Hx.
  - apply getitem_int_in. unfold behind. rewrite decide_True by lia.
    rewrite <- Hx. f_equal. lia.
Qed.

(** X6: in every state [current], [buffer(-1)] and [buffer[0]] have the
    same outcome, the newest state or [IndexError] on an empty buffer, and
    [get_last_n_states(1)] is the list of that state alone, or empty. *)
Theorem current_is_newest (b : TemporalBuffer) :
  fst (__call__ (KInt (-1)) b) = fst (current b) /\
  fst (__getitem__ (KInt 0) b) =
    match fst (current b) with
    | Ok x => Ok (Some x)
    | Raise e => Raise e
    end /\
  fst (get_last_n_states 1 b) =
    Ok match fst (current b) with
       | Ok x => [x]
       | Raise _ => []
       end.
Proof.
  rewrite current_behind, getitem_int_fst, get_last_n_positive by lia.
  cbn [fst]. change (Z.abs_nat 0) with 0%nat. change (Z.to_nat 1) with 1%nat.
  rewrite lastn_1_behind.
  split; [| split; by destruct (behind 0 (items (buffer b)))].
  destruct (behind 0 (items (buffer b))) as [x |] eqn:Hx.
  - rewrite call_int
      by (intros Hnil; rewrite Hnil in Hx; discriminate).
    apply deque_index_behind in Hx.
    change (-1 - Z.of_nat 0) with (-1) in Hx. by rewrite Hx.
  - unfold __call__, mbind, M_bind, self, raise, deque_len.
    destruct (items (buffer b)) as [| y l]; [done |].
    destruct (behind_lt 0 (y :: l)) as [z Hz]; [simpl; lia | congruence].
Qed.

(** X7: for [n >= 1], [get_last_n_states(n)] returns the end of the
    iteration, in the iteration's order, of length [min(n, len)]. *)
Theorem get_last_n_states_window (b : TemporalBuffer) (n : Z) :
  1 <= n ->
  exists pre r,
    get_last_n_states n b = (Ok r, b) /\
    __iter__ b = (Ok (pre ++ r), b) /\
    Z.of_nat (length r) = Z.min n (deque_len (buffer b)).
Proof.
  intros Hn.
  exists (take (length (items (buffer b)) - Z.to_nat n) (items (buffer b))),
         (lastn (Z.to_nat n) (items (buffer b))).
  split; [by apply get_last_n_positive |]. split.
  - unfold lastn. by rewrite take_drop.
  - rewrite lastn_length. unfold deque_len. lia.
Qed.

(** X8: for [n < 0], [get_last_n_states(n)] returns the iteration without
    its first [min(-n, len)] states. *)
Theorem get_last_n_states_negative (b : TemporalBuffer) (n : Z) :
  n < 0 ->
  exists pre r,
    get_last_n_states n b = (Ok r, b) /\
    __iter__ b = (Ok (pre ++ r), b) /\
    Z.of_nat (length pre) = Z.min (- n) (deque_len (buffer b)).
Proof.
  intros Hn.
  exists (take (Z.to_nat (- n)) (items (buffer b))),
         (drop (Z.to_nat (- n)) (items (buffer b))).
  split; [| split].
  - unfold get_last_n_states, mbind, M_bind, self, mret, M_ret, slice_from.
    zcases. do 2 f_equal.
    destruct (Z.le_gt_cases (- n) (Z.of_nat (length (items (buffer b))))).
    + f_equal. lia.
    + rewrite !drop_ge; [done | lia | lia].
  - by rewrite take_drop.
  - rewrite length_take. unfold deque_len. lia.
Qed.


(** X10: [update] of an object without [temporal_id] raises
    [AttributeError] and changes nothing.  On a buffer of depth at least
    1, [update] of an object with the attribute succeeds, writes the
    object into the key index under that id, and makes it both [current]
    and [buffer[0]]. *)
Theorem update_enters_object (b : TemporalBuffer) (o : state) :
  deque_ok (buffer b) -> 1 <= maxlen (buffer b) ->
  match temporal_id o with
  | None => update temporal_id o b = (Raise AttributeError, b)
  | Some id =>
      exists b', update temporal_id o b = (Ok tt, b') /\
        id_index b' = ld_set id o (id_index b) /\
        current b' = (Ok o, b') /\
        __getitem__ (KInt 0) b' = (Ok (Some o), b')
  end.
Proof.
  intros Hok HN. unfold update.
  destruct (temporal_id o) as [id |]; [| done].
  pose proof (add_ok b id o HN) as Hadd.
  pose proof (add_newest _ _ _ _ Hok Hadd) as Hnew.
  eexists. split; [exact Hadd |]. split; [done |]. split.
  - by rewrite current_behind, Hnew.
  - by apply getitem_int_in.
Qed.

(** X11: while a fresh buffer of depth [N] has not overflowed, that is
    after [k] calls of [add] or [update] with [1 <= k <= N],
    [current_index] is [len - 1], the deque position of the newest state:
    [buffer(current_index)] is [current]. *)
Theorem current_index_tracks_until_full (N : Z) (ms : list mutator) :
  Forall has_id ms -> ms <> [] -> Z.of_nat (length ms) <= N ->
  exists b0 b : TemporalBuffer,
    init N = Ok b0 /\
    call_all (mutate <$> ms) b0 = (Ok tt, b) /\
    current_index b = deque_len (buffer b) - 1 /\
    exists x, current b = (Ok x, b) /\
      __call__ (KInt (current_index b)) b = (Ok x, b).
Proof.
  intros Hids Hne Hk.
  assert (1 <= N) as HN by (destruct ms; [done | simpl in Hk; lia]).
  destruct (mutate_all_inv N ms HN Hids [] _ (seq_inv_init N))
    as (b & Hrun & _ & Hit & Hci).
  simpl in Hit, Hci.
  rewrite lastn_all in Hit by (rewrite length_fmap; lia).
  assert (deque_len (buffer b) = Z.of_nat (length ms)) as Hlen.
  { unfold deque_len. by rewrite Hit, length_fmap. }
  assert (current_index b = deque_len (buffer b) - 1) as Hci'.
  { rewrite Hci, Hlen. destruct ms as [| m ms]; [done |].
    rewrite length_fmap, fmap_cons. cbv beta iota.
    apply Z.mod_small. simpl length in *. lia. }
  eexists _, b. split; [apply init_ok; lia |]. split; [done |]. split; [done |].
  destruct (behind_lt 0 (items (buffer b))) as [x Hx].
  { unfold deque_len in Hlen. destruct ms; [done | simpl in Hlen; lia]. }
  exists x. split; [by rewrite current_behind, Hx |].
  rewrite call_int by (intros Hnil; rewrite Hnil in Hx; discriminate).
  apply behind_Some in Hx as [Hlt Hx]. apply deque_index_lookup in Hx.
  rewrite Hci'. unfold deque_len.
  replace (Z.of_nat (length (items (buffer b))) - 1)
    with (Z.of_nat (length (items (buffer b)) - 1 - 0)) by lia.
  by rewrite Hx.
Qed.

End Properties.

(** ** The test suite's buffer *)

(** The fixtures are what the constructor and the calls produce. *)
Example temporal_object_built : init 3 = Ok temporal_object.
Proof. reflexivity. Qed.

Example single_temporal_object_built :
  add "id1" 10%nat temporal_object = (Ok tt, single_temporal_object).
Proof. reflexivity. Qed.

Example filled_temporal_object_built :
  call_all ((fun c => add c.1 c.2) <$> filled_calls) temporal_object
    = (Ok tt, filled_temporal_object).
Proof. reflexivity. Qed.

(** With depth 0 the first [add] stores the key and then divides by
    zero. *)
Example add_depth_zero :
  exists b0 : @TemporalBuffer nat, init 0 = Ok b0 /\
    fst (add "id1" 10%nat b0) = Raise ZeroDivisionError.
Proof. eexists. split; reflexivity. Qed.

(** C5: at [n = 0] the slice [[-n:]] is [[0:]]: on the filled buffer
    [get_last_n_states(0)] returns all three states, where the last zero
    states are the empty list. *)
Theorem get_last_n_zero_filled :
  get_last_n_states 0 filled_temporal_object
    = (Ok [20; 30; 40]%nat, filled_temporal_object) /\
  lastn 0 (items (buffer filled_temporal_object)) = [].
Proof. split; reflexivity. Qed.

Lemma filled_calls_NoDup : NoDup filled_calls.*1.
Proof. apply (bool_decide_unpack _). vm_compute. exact I. Defined.

Lemma add_sequence_consistent_witness :
  exists b : @TemporalBuffer nat,
    __len__ b = (Ok 3, b) /\
    __iter__ b = (Ok [20; 30; 40]%nat, b) /\
    __getitem__ (KStr "id2") b = (Ok (Some 20%nat), b) /\
    __getitem__ (KInt 2) b = (Ok (Some 20%nat), b) /\
    __getitem__ (KStr "id1") b = (Ok None, b).
Proof.
  destruct (add_sequence_consistent 3 filled_calls ltac:(lia) filled_calls_NoDup)
    as (b0 & b & _ & _ & Hlen & Hiter & Hret & Hev).
  exists b. split; [exact Hlen |]. split; [exact Hiter |].
  destruct (Hret 1%nat "id2" 20%nat eq_refl ltac:(simpl; lia)) as [Hs Hp].
  split; [exact Hs |]. split; [exact Hp |].
  exact (Hev 0%nat "id1" 10%nat eq_refl ltac:(simpl; lia)).
Defined.

Lemma getitem_abs_collapse_witness :
  __getitem__ (KInt 0) filled_temporal_object
    = (Ok (Some 40%nat), filled_temporal_object) /\
  exists x, behind 2 (items (buffer filled_temporal_object)) = Some x /\
    __getitem__ (KInt 2) filled_temporal_object
      = (Ok (Some x), filled_temporal_object) /\
    __getitem__ (KInt (-2)) filled_temporal_object
      = (Ok (Some x), filled_temporal_object).
Proof.
  assert (deque_ok (buffer filled_temporal_object)) as Hok.
  { unfold deque_ok, deque_len. simpl. lia. }
  destruct (getitem_abs_collapse filled_temporal_object Hok) as (_ & H0 & Hd).
  split; [exact (H0 40%nat eq_refl) |].
  apply (Hd 2). unfold deque_len. simpl. lia.
Defined.

Lemma current_index_evolution_witness :
  exists b0 b : @TemporalBuffer nat,
    init 3 = Ok b0 /\ current_index b0 = -1 /\
    call_all (mutate (fun _ => Some "obj") <$>
                [Add "id1" 10; Update 20; Add "id3" 30; Update 40]%nat) b0
      = (Ok tt, b) /\
    current_index b = (4 - 1) mod 3.
Proof.
  destruct (current_index_evolution (fun _ : nat => Some "obj") 3 ltac:(lia))
    as [(b0 & Hinit & Hfresh & Hms) _].
  destruct (Hms [Add "id1" 10; Update 20; Add "id3" 30; Update 40]%nat)
    as (b & Hrun & Hci).
  - repeat constructor; by eexists.
  - discriminate.
  - exists b0, b. repeat split; assumption.
Defined.

Lemma index_mutation_frame_witness :
  exists b', __delitem__ "id2" filled_temporal_object = (Ok tt, b') /\
    ld_contains "id2" (id_index b') = false /\
    __getitem__ (KInt 2) b' = (Ok (Some 20%nat), b').
Proof.
  destruct (index_mutation_frame filled_temporal_object "id2" 0%nat)
    as [_ Hdel].
  destruct (Hdel eq_refl) as (b' & Hrun & _).
  exists b'. split; [exact Hrun |].
  injection Hrun as <-. split; reflexivity.
Defined.

Lemma call_raw_indexing_witness :
  __call__ (KInt 0) filled_temporal_object = (Ok 20%nat, filled_temporal_object) /\
  __getitem__ (KInt 0) filled_temporal_object
    = (Ok (Some 40%nat), filled_temporal_object) /\
  __call__ (KInt (-1)) filled_temporal_object = (Ok 40%nat, filled_temporal_object) /\
  __call__ (KInt 1) filled_temporal_object = (Ok 30%nat, filled_temporal_object) /\
  __call__ (KInt (-4)) filled_temporal_object
    = (Raise IndexError, filled_temporal_object).
Proof.
  destruct (call_raw_indexing filled_temporal_object)
    as (_ & Hends & Hpos & Hneg & Hout).
  destruct (Hends 20%nat [30%nat] 40%nat eq_refl) as [Hc Hg].
  split; [exact Hc |]. split; [exact Hg |].
  split; [exact (Hneg 1 40%nat ltac:(lia) eq_refl) |].
  split; [exact (Hpos 1 30%nat ltac:(lia) eq_refl) |].
  apply Hout; [discriminate |]. left. unfold deque_len. simpl. lia.
Defined.

Lemma getitem_range_check_witness :
  __getitem__ (KInt 5) single_temporal_object
    = (Raise IndexError, single_temporal_object) /\
  exists x, __getitem__ (KInt (-2)) filled_temporal_object
    = (Ok (Some x), filled_temporal_object).
Proof.
  split.
  - destruct (getitem_range_check single_temporal_object 5) as [[_ Hout] _].
    apply (f_equal (fun o => (o, single_temporal_object))), Hout.
    unfold deque_len. simpl. lia.
  - destruct (getitem_range_check filled_temporal_object (-2)) as [_ Hin].
    apply Hin. unfold deque_len. simpl. lia.
Defined.

Lemma getitem_dispatch_witness :
  __getitem__ (KSlice (Some 0) (Some 1) None) temporal_object
    = (Raise NotImplementedError, temporal_object) /\
  __getitem__ (KOther "float") temporal_object
    = (Raise TypeError, temporal_object) /\
  __getitem__ (KStr "id1") filled_temporal_object
    = (Ok None, filled_temporal_object).
Proof.
  destruct (getitem_dispatch temporal_object) as (Hslice & Hother & _).
  destruct (getitem_dispatch filled_temporal_object) as (_ & _ & _ & Habs).
  split; [apply Hslice |]. split; [by apply Hother |]. by apply Habs.
Defined.

Lemma current_accessor_witness :
  current temporal_object = (Raise IndexError, temporal_object) /\
  current filled_temporal_object = (Ok 40%nat, filled_temporal_object) /\
  current single_temporal_object = (Ok 10%nat, single_temporal_object).
Proof.
  destruct (current_accessor temporal_object) as (Hempty & _ & Hadd).
  destruct (current_accessor filled_temporal_object) as (_ & Hlast & _).
  split; [by apply Hempty |]. split; [by apply Hlast |].
  apply (Hadd ltac:(unfold deque_ok, deque_len; simpl; lia) "id1").
  reflexivity.
Defined.

(** ** Instances of the further properties *)


Lemma add_keeps_bound_witness :
  exists b', add "id5" 50%nat filled_temporal_object = (Ok tt, b') /\
    __len__ b' = (Ok 3, b') /\
    __iter__ b' = (Ok [30; 40; 50]%nat, b').
Proof.
  destruct (add_keeps_bound filled_temporal_object "id5" 50%nat)
    as (b' & Hrun & _ & _ & Hlen & Hiter).
  - unfold deque_ok, deque_len. simpl. lia.
  - simpl. lia.
  - exists b'. split; [exact Hrun |]. split; [exact Hlen | exact Hiter].
Defined.

Lemma add_shifts_reads_witness :
  fst (__getitem__ (KInt 2) filled_temporal_object)
    = fst (__getitem__ (KInt 1)
             (Self (Deque [10; 20; 30]%nat 3)
                (LDict 3 [("id1", 10); ("id2", 20); ("id3", 30)]%nat) 2)).
Proof.
  apply (add_shifts_reads _ filled_temporal_object "id4" 40%nat 1).
  - unfold deque_ok, deque_len. simpl. lia.
  - reflexivity.
  - lia.
  - unfold deque_len. simpl. lia.
Defined.

Lemma call_mirrors_getitem_witness :
  exists x, __call__ (KInt 0) filled_temporal_object
              = (Ok x, filled_temporal_object) /\
    __getitem__ (KInt 2) filled_temporal_object
      = (Ok (Some x), filled_temporal_object).
Proof.
  destruct (call_mirrors_getitem filled_temporal_object 0)
    as (l & x & _ & _ & Hc & Hg).
  - unfold deque_len. simpl. lia.
  - exists x. split; [exact Hc | exact Hg].
Defined.

Lemma get_last_n_states_window_witness :
  exists pre r,
    get_last_n_states 2 filled_temporal_object = (Ok r, filled_temporal_object) /\
    [20; 30; 40]%nat = pre ++ r /\ length r = 2%nat.
Proof.
  destruct (get_last_n_states_window filled_temporal_object 2 ltac:(lia))
    as (pre & r & Hr & Hiter & Hlen).
  exists pre, r. split; [exact Hr |]. split.
  - by injection Hiter.
  - unfold deque_len in Hlen. simpl in Hlen. lia.
Defined.

Lemma get_last_n_states_negative_witness :
  exists pre r,
    get_last_n_states (-1) filled_temporal_object
      = (Ok r, filled_temporal_object) /\
    [20; 30; 40]%nat = pre ++ r /\ length pre = 1%nat.
Proof.
  destruct (get_last_n_states_negative filled_temporal_object (-1) ltac:(lia))
    as (pre & r & Hr & Hiter & Hlen).
  exists pre, r. split; [exact Hr |]. split.
  - by injection Hiter.
  - unfold deque_len in Hlen. simpl in Hlen. lia.
Defined.


Lemma update_enters_object_witness :
  (exists b', update (fun n : nat => if (n =? 0)%nat then None else Some "obj")
                50%nat filled_temporal_object = (Ok tt, b') /\
     current b' = (Ok 50%nat, b')) /\
  update (fun n : nat => if (n =? 0)%nat then None else Some "obj")
    0%nat filled_temporal_object = (Raise AttributeError, filled_temporal_object).
Proof.
  assert (deque_ok (buffer filled_temporal_object)) as Hok.
  { unfold deque_ok, deque_len. simpl. lia. }
  assert (1 <= maxlen (buffer filled_temporal_object)) as HN by (simpl; lia).
  split.
  - destruct (update_enters_object
                (fun n : nat => if (n =? 0)%nat then None else Some "obj")
                filled_temporal_object 50%nat Hok HN)
      as (b' & Hrun & _ & Hcur & _).
    exists b'. split; [exact Hrun | exact Hcur].
  - exact (update_enters_object
             (fun n : nat => if (n =? 0)%nat then None else Some "obj")
             filled_temporal_object 0%nat Hok HN).
Defined.

Lemma current_index_tracks_until_full_witness :
  exists b0 b : @TemporalBuffer nat,
    init 3 = Ok b0 /\
    call_all (mutate (fun _ => Some "obj") <$> [Add "id1" 10; Update 20]%nat) b0
      = (Ok tt, b) /\
    current_index b = deque_len (buffer b) - 1.
Proof.
  destruct (current_index_tracks_until_full (fun _ : nat => Some "obj") 3
              [Add "id1" 10; Update 20]%nat)
    as (b0 & b & Hinit & Hrun & Hci & _).
  - repeat constructor; by eexists.
  - discriminate.
  - simpl. lia.
  - exists b0, b. repeat split; assumption.
Defined.
